(** * conceptual-server-graph: the Express backend [server.js]

    The program is one file: a string-escaping helper and two route
    handlers that translate between JSON and SPARQL for a GraphDB store.

    - JavaScript strings are modelled as [string]; the five characters
      the helper treats specially are all ASCII.
    - The fields of a request body are strings or absent, as the data
      model of the specification types them: [option string], with [None]
      for an absent field ([undefined]).
    - [await axios.post / axios.get] is a call to an oracle standing for the
      store: it either resolves with a response or rejects with an error
      that may carry a response.
    - A handler run records the calls sent to the store and how the
      handler ended: a reply [res.status(c).json(j)], or an exception that
      left the handler.  [console.*] output is not part of the model.  *)

From Stdlib Require Import String Ascii List ZArith Lia Bool.
From Stdlib Require Import DecimalString DecimalPos DecimalZ.
Import ListNotations.
Local Open Scope string_scope.
Local Open Scope list_scope.
Set Warnings "-register-all".

(* ================================================================== *)
(** * Part I: the program                                              *)
(* ================================================================== *)

(** ** Characters and strings *)

Definition backslash : ascii := "\"%char.
Definition dquote : ascii := "034"%char.
Definition newline : ascii := "010"%char.
Definition creturn : ascii := "013"%char.
Definition htab : ascii := "009"%char.

Definition dq : string := String dquote "".
Definition nl : string := String newline "".
Definition tab : string := String htab "".

(** [!str] for a string-or-absent value: [undefined] and [''] are falsy. *)
Definition truthy (v : option string) : bool :=
  match v with
  | Some (String _ _) => true
  | _ => false
  end.

(** [`${v}`]: a template literal's conversion of a string-or-absent value. *)
Definition interpolate (v : option string) : string :=
  match v with
  | Some s => s
  | None => "undefined"
  end.

(** [str.replace(/c/g, by)] where the pattern is the single character
    [c]: every occurrence is replaced, left to right, and replaced text
    is not scanned again. *)
Fixpoint replace (c : ascii) (by_ : string) (str : string) : string :=
  match str with
  | EmptyString => EmptyString
  | String a rest =>
      if Ascii.eqb a c then by_ ++ replace c by_ rest
      else String a (replace c by_ rest)
  end.

(** server.js, lines 19-27. *)
Definition escapeSparqlString (str : option string) : option string :=
  if negb (truthy str) then str
  else
    option_map
      (fun s =>
         replace htab "\t"
           (replace creturn "\r"
              (replace newline "\n"
                 (replace dquote (String backslash dq)
                    (replace backslash "\\" s)))))
      str.

(** ** Configuration (lines 9-12) *)

Definition GRAPHDB_URL : string := "http://localhost:7200".
Definition REPOSITORY_ID : string := "conceptual-repo".
Definition GRAPHDB_SPARQL_ENDPOINT : string :=
  GRAPHDB_URL ++ "/repositories/" ++ REPOSITORY_ID ++ "/statements".
Definition BASE_URI : string := "http://conceptual-machines.org/".

(** ** JSON payloads *)

(** Values handed to [res.json] and bodies received from the store.
    Numbers are the integers (status codes). *)
Inductive json : Type :=
| JNull
| JBool (b : bool)
| JNum (n : Z)
| JStr (s : string)
| JArr (items : list json)
| JObj (fields : list (string * json)).

(** Truthiness of a received body, as [error.response.data ? _ : _] tests it. *)
Definition json_truthy (j : json) : bool :=
  match j with
  | JNull => false
  | JBool b => b
  | JNum n => negb (n =? 0)%Z
  | JStr EmptyString => false
  | JStr (String _ _) => true
  | JArr _ => true
  | JObj _ => true
  end.

(** ** The store as axios shows it *)

Record response (D : Type) : Type := { status : Z; data : D }.
Arguments status {D} _.
Arguments data {D} _.

(** The error of a rejected axios call: [error.response] is absent when
    no response was received (connection refused, timeout). *)
Record axios_error : Type :=
  { err_response : option (response json); err_message : string }.

(** What can be thrown inside a handler. *)
Inductive exn : Type :=
| AxiosError (e : axios_error)
| TypeError (message : string).

(** [error.response] *)
Definition error_response (error : exn) : option (response json) :=
  match error with
  | AxiosError e => err_response e
  | TypeError _ => None
  end.

(** One binding of a SPARQL JSON result row; the handler reads [.value]. *)
Record binding : Type := { value : string }.

(** One row of [response.data.results.bindings]. *)
Module ResultRow.
Record t : Type :=
  { node : option binding;
    label : option binding;
    comment : option binding;
    source : option binding;
    relationshipType : option binding }.
End ResultRow.

(** [req.body] of POST /insert-term after [express.json()]. *)
Module Body.
Record t : Type :=
  { label : option string;
    comment : option string;
    parentId : option string }.
End Body.

Definition header : Type := (string * string)%type.

Inductive store_call : Type :=
| Post (url : string) (body : string) (headers : list header)
| Get (url : string) (query : string) (headers : list header).

(** The store behind axios: what each call resolves or rejects with. *)
Record Store : Type :=
  { axios_post : string -> string -> list header -> axios_error + response json;
    axios_get : string -> string -> list header -> axios_error + response (list ResultRow.t) }.

(** [res.status(code).json(payload)] *)
Record reply : Type := { res_status : Z; res_json : json }.

(** A handler run: the calls made to the store, in order, and the end
    of the handler: [inr] a reply sent, [inl] an exception that no
    [catch] of the handler took. *)
Record run : Type := { sent : list store_call; ended : exn + reply }.

(** ** A small exception monad for the bodies of [try] blocks *)

Definition result (A : Type) : Type := (exn + A)%type.
Definition ret {A} (a : A) : result A := inr a.
Definition throw {A} (e : exn) : result A := inl e.
Definition bind {A B} (m : result A) (k : A -> result B) : result B :=
  match m with
  | inl e => inl e
  | inr a => k a
  end.
Notation "x <- m ;; k" := (bind m (fun x => k))
  (at level 61, m at next level, right associativity).

(** [try { body } catch (error) { handler }] *)
Definition try_catch {A} (body : result A) (handler : exn -> A) : A :=
  match body with
  | inr a => a
  | inl error => handler error
  end.

(** [await] of an axios promise inside a [try] block. *)
Definition await {D} (p : axios_error + D) : result D :=
  match p with
  | inl e => throw (AxiosError e)
  | inr r => ret r
  end.

(** ** POST /insert-term (lines 32-95) *)

(** [`Term_${Date.now()}`]: [now] is the clock reading, in milliseconds. *)
Definition termId (now : Z) : string :=
  "Term_" ++ NilZero.string_of_int (Z.to_int now).

Definition termUri (now : Z) : string := BASE_URI ++ termId now.

(** The template literal of lines 48-55. *)
Definition sparqlUpdate (termUri : string)
    (escapedLabel escapedComment parentId : option string) : string :=
  nl ++
  "     PREFIX skos: <http://www.w3.org/2004/02/skos/core#>" ++ nl ++
  "     INSERT DATA {" ++ nl ++
  "         <" ++ termUri ++ "> skos:prefLabel " ++ dq ++ interpolate escapedLabel ++ dq ++ " ." ++ nl ++
  "         " ++
  (if truthy escapedComment
   then "<" ++ termUri ++ "> skos:note " ++ dq ++ interpolate escapedComment ++ dq ++ " ."
   else "") ++ nl ++
  "         " ++
  (if truthy parentId
   then "<" ++ interpolate parentId ++ "> skos:narrower <" ++ termUri ++ "> ."
   else "<" ++ BASE_URI ++ "Root> skos:narrower <" ++ termUri ++ "> .") ++ nl ++
  "     }" ++ nl ++
  "    ".

Definition update_headers : list header :=
  [("Content-Type", "application/sparql-update"); ("Accept", "application/json")].

(** The [catch] blocks of both handlers (lines 84-94 and 183-193) differ
    only in the generic message. *)
Definition catch_reply (generic : string) (error : exn) : reply :=
  let statusCode :=
    match error_response error with
    | Some r => status r
    | None => 500%Z
    end in
  let errorMessage :=
    match error_response error with
    | Some r => if json_truthy (data r) then data r else JStr generic
    | None => JStr generic
    end in
  {| res_status := statusCode; res_json := JObj [("error", errorMessage)] |}.

Definition insert_reply (now : Z) (r : response json) : reply :=
  if (status r =? 204)%Z then
    {| res_status := 200;
       res_json := JObj [("message", JStr "Term inserted successfully!");
                         ("termId", JStr (termId now))] |}
  else
    {| res_status := status r;
       res_json :=
         JObj [("message",
                JStr "Term might have been inserted, but received unexpected status.");
               ("graphDbStatus", JNum (status r))] |}.

(** The update text built for a request (lines 41-55). *)
Definition update_text (now : Z) (body : Body.t) : string :=
  let escapedLabel := escapeSparqlString (Body.label body) in
  let escapedComment := escapeSparqlString (Body.comment body) in
  sparqlUpdate (termUri now) escapedLabel escapedComment (Body.parentId body).

Definition post_insert_term (store : Store) (now : Z) (body : Body.t) : run :=
  let label := Body.label body in
  if negb (truthy label) then
    {| sent := [];
       ended := inr {| res_status := 400;
                       res_json := JObj [("error", JStr "Term label is required.")] |} |}
  else
    let update := update_text now body in
    {| sent := [Post GRAPHDB_SPARQL_ENDPOINT update update_headers];
       ended :=
         inr (try_catch
                (r <- await (axios_post store GRAPHDB_SPARQL_ENDPOINT update update_headers) ;;
                 ret (insert_reply now r))
                (catch_reply "Failed to insert Term into GraphDB.")) |}.

(** A request as it reaches the process: the store as it will answer,
    the clock reading [Date.now()] returns while the request is handled,
    and the body. *)
Record arrival : Type :=
  { at_store : Store; at_clock : Z; with_body : Body.t }.

(** The process over its lifetime: the handler keeps nothing from one
    request to the next. *)
Definition serve (requests : list arrival) : list run :=
  map (fun a => post_insert_term (at_store a) (at_clock a) (with_body a)) requests.

(** The [termId] a run reported to its caller, if it reported one. *)
Definition reported_termId (r : run) : option string :=
  match ended r with
  | inr {| res_json := JObj [(_, _); ("termId", JStr id)] |} => Some id
  | _ => None
  end.

(** ** GET /graph (lines 99-194) *)

(** The template literal of lines 102-131. *)
Definition query : string :=
  nl ++
  "     " ++ nl ++
  "      PREFIX skos: <http://www.w3.org/2004/02/skos/core#>" ++ nl ++
  "      PREFIX cm: <" ++ BASE_URI ++ ">" ++ nl ++
  "      " ++ nl ++
  "      SELECT ?node ?label ?comment ?source ?relationshipType" ++ nl ++
  "      WHERE {" ++ nl ++
  nl ++
  "      " ++ nl ++
  "       # Get node labels" ++ nl ++
  "        OPTIONAL { ?node skos:prefLabel ?label } ." ++ nl ++
  "        " ++ nl ++
  "        # Get node comments if available" ++ nl ++
  "        OPTIONAL { ?node skos:note ?comment } ." ++ nl ++
  "        " ++ nl ++
  "        # Get connections between nodes with explicit relationship type" ++ nl ++
  "        OPTIONAL {" ++ nl ++
  tab ++ "        ?source skos:narrower ?node ." ++ nl ++
  "    " ++ tab ++ "    BIND(skos:narrower AS ?relationshipType)" ++ nl ++
  "        }" ++ nl ++
  "        " ++ nl ++
  "        # Filter to include only nodes that are Terms or Roles or connected to conceptual-map" ++ nl ++
  "        FILTER(" ++ nl ++
  "          CONTAINS(STR(?nodeType), " ++ dq ++ "Term" ++ dq ++ ") || " ++ nl ++
  "          CONTAINS(STR(?nodeType), " ++ dq ++ "Role" ++ dq ++ ") ||" ++ nl ++
  "          CONTAINS(STR(?node), " ++ dq ++ "Root" ++ dq ++ ") ||" ++ nl ++
  "          EXISTS { cm:Root skos:narrower ?node }" ++ nl ++
  "        )" ++ nl ++
  "      }" ++ nl ++
  "    ".

Definition query_headers : list header :=
  [("Accept", "application/sparql-results+json")].

(** [processedData] (lines 153-156): two arrays filled by [push]. *)
Record processedData : Type := { nodes : list json; edges : list json }.

Definition push {A} (array : list A) (x : A) : list A := array ++ [x].

(** [b.value] where [b] may be [undefined]: reading a property of
    [undefined] throws. *)
Definition read_value (b : option binding) : result string :=
  match b with
  | Some x => ret (value x)
  | None => throw (TypeError "Cannot read properties of undefined (reading 'value')")
  end.

(** [b ? b.value : ''] *)
Definition value_or_empty (b : option binding) : string :=
  match b with
  | Some x => value x
  | None => ""
  end.

(** The callback of [bindings.forEach] (lines 159-173). *)
Definition forEach_body (acc : processedData) (binding : ResultRow.t) : result processedData :=
  id <- read_value (ResultRow.node binding) ;;
  let acc :=
    {| nodes := push (nodes acc)
                  (JObj [("id", JStr id);
                         ("label", JStr (value_or_empty (ResultRow.label binding)));
                         ("comment", JStr (value_or_empty (ResultRow.comment binding)))]);
       edges := edges acc |} in
  match ResultRow.source binding with
  | Some _ =>
      src <- read_value (ResultRow.source binding) ;;
      target <- read_value (ResultRow.node binding) ;;
      ret {| nodes := nodes acc;
             edges := push (edges acc)
                        (JObj [("source", JStr src);
                               ("target", JStr target);
                               ("type", JStr (value_or_empty (ResultRow.relationshipType binding)))]) |}
  | None => ret acc
  end.

Fixpoint forEach (bindings : list ResultRow.t) (acc : processedData) : result processedData :=
  match bindings with
  | [] => ret acc
  | binding :: rest => acc' <- forEach_body acc binding ;; forEach rest acc'
  end.

Definition graph_reply (r : response (list ResultRow.t)) : result reply :=
  if (status r =? 200)%Z then
    processed <- forEach (data r) {| nodes := []; edges := [] |} ;;
    ret {| res_status := 200;
           res_json := JObj [("nodes", JArr (nodes processed));
                             ("edges", JArr (edges processed))] |}
  else
    ret {| res_status := status r;
           res_json :=
             JObj [("message",
                    JStr "Data might have been fetched, but received unexpected status.");
                   ("graphDbStatus", JNum (status r))] |}.

(** [`${GRAPHDB_URL}/repositories/${REPOSITORY_ID}`] (line 137) *)
Definition repository_url : string :=
  GRAPHDB_URL ++ "/repositories/" ++ REPOSITORY_ID.

Definition get_graph (store : Store) : run :=
  {| sent := [Get repository_url query query_headers];
     ended :=
       inr (try_catch
              (r <- await (axios_get store repository_url query query_headers) ;;
               graph_reply r)
              (catch_reply "Failed to fetch data from GraphDB.")) |}.

(* ================================================================== *)
(** * Part II: the store's reading of an update                        *)
(* ================================================================== *)

(** The grammar of the query language belongs to the store and is not
    part of the repository.  This part holds the fragment of the SPARQL
    1.1 grammar that the update template uses: the terminals IRIREF,
    PNAME_NS, PNAME_LN and STRING_LITERAL2 (with ECHAR), comments, and
    the productions PrefixDecl and InsertData over triples that each end
    in a dot.  Tokens are separated by white space.  Text outside the
    fragment is rejected, never read in another way.  The pre-pass for
    codepoint escapes (backslash u) is not part of the string-literal
    grammar and is left out. *)

(** Modelled from the spec: the tokens of the store's query language,
    which the repository does not define. *)
Inductive token : Type :=
| IRIREF (iri : string)
| PNAME (prefix local : string)
| STRING_LITERAL2 (lexical : string)
| KEYWORD (word : string)
| DOT
| LBRACE
| RBRACE.

(** WS ::= #x20 | #x9 | #xD | #xA *)
Definition is_ws (c : ascii) : bool :=
  Ascii.eqb c " " || Ascii.eqb c htab || Ascii.eqb c creturn || Ascii.eqb c newline.

Definition is_letter (c : ascii) : bool :=
  let n := N_of_ascii c in
  ((65 <=? n) && (n <=? 90) || (97 <=? n) && (n <=? 122))%N.

(** The characters allowed between the angle brackets of an IRIREF:
    above #x20 and none of less-than, greater-than, double quote, the two
    braces, vertical bar, caret, backquote and backslash. *)
Definition iri_char (c : ascii) : bool :=
  (32 <? N_of_ascii c)%N &&
  negb (Ascii.eqb c "<" || Ascii.eqb c ">" || Ascii.eqb c dquote ||
        Ascii.eqb c "{" || Ascii.eqb c "}" || Ascii.eqb c "|" ||
        Ascii.eqb c "^" || Ascii.eqb c "`" || Ascii.eqb c backslash).

(** ECHAR: a backslash followed by one of t b n r f, backslash, double
    quote or single quote; [echar] gives the character each stands for. *)
Definition echar (c : ascii) : option ascii :=
  if Ascii.eqb c "t" then Some htab
  else if Ascii.eqb c "b" then Some "008"%char
  else if Ascii.eqb c "n" then Some newline
  else if Ascii.eqb c "r" then Some creturn
  else if Ascii.eqb c "f" then Some "012"%char
  else if Ascii.eqb c backslash then Some backslash
  else if Ascii.eqb c dquote then Some dquote
  else if Ascii.eqb c "'" then Some "'"%char
  else None.

Inductive lexer_state : Type :=
| Between                          (* a token may begin *)
| Closed                           (* a token just ended: white space must follow *)
| InComment                        (* after '#', up to the end of the line *)
| InIri (acc : string)             (* after '<' *)
| InLit (acc : string)             (* after the opening quote of a literal *)
| InEchar (acc : string)           (* after a backslash inside a literal *)
| InWord (acc : string)            (* letters of a keyword or of a prefix *)
| InLocal (prefix acc : string).   (* letters after the colon of a prefixed name *)

Definition snoc (s : string) (c : ascii) : string := s ++ String c "".

Definition begin_token (c : ascii) : option (lexer_state * list token) :=
  if is_ws c then Some (Between, [])
  else if Ascii.eqb c "<" then Some (InIri "", [])
  else if Ascii.eqb c dquote then Some (InLit "", [])
  else if Ascii.eqb c "." then Some (Closed, [DOT])
  else if Ascii.eqb c "{" then Some (Closed, [LBRACE])
  else if Ascii.eqb c "}" then Some (Closed, [RBRACE])
  else if Ascii.eqb c "#" then Some (InComment, [])
  else if is_letter c then Some (InWord (String c ""), [])
  else None.

(** Modelled from the spec: the store's lexer, one character of input
    at a time: the next state and the tokens completed. *)
Definition step (st : lexer_state) (c : ascii) : option (lexer_state * list token) :=
  match st with
  | Between => begin_token c
  | Closed => if is_ws c then Some (Between, []) else None
  | InComment =>
      if Ascii.eqb c newline || Ascii.eqb c creturn then Some (Between, [])
      else Some (InComment, [])
  | InIri acc =>
      if Ascii.eqb c ">" then Some (Closed, [IRIREF acc])
      else if iri_char c then Some (InIri (snoc acc c), [])
      else None
  | InLit acc =>
      if Ascii.eqb c dquote then Some (Closed, [STRING_LITERAL2 acc])
      else if Ascii.eqb c backslash then Some (InEchar acc, [])
      else if Ascii.eqb c newline || Ascii.eqb c creturn then None
      else Some (InLit (snoc acc c), [])
  | InEchar acc =>
      match echar c with
      | Some d => Some (InLit (snoc acc d), [])
      | None => None
      end
  | InWord acc =>
      if is_letter c then Some (InWord (snoc acc c), [])
      else if Ascii.eqb c ":" then Some (InLocal acc "", [])
      else if is_ws c then Some (Between, [KEYWORD acc])
      else None
  | InLocal p acc =>
      if is_letter c then Some (InLocal p (snoc acc c), [])
      else if is_ws c then Some (Between, [PNAME p acc])
      else None
  end.

Definition finish (st : lexer_state) : option (list token) :=
  match st with
  | Between | Closed | InComment => Some []
  | InWord acc => Some [KEYWORD acc]
  | InLocal p acc => Some [PNAME p acc]
  | InIri _ | InLit _ | InEchar _ => None
  end.

Fixpoint lex_from (st : lexer_state) (text : string) : option (list token) :=
  match text with
  | EmptyString => finish st
  | String c rest =>
      match step st c with
      | Some (st', out) => option_map (app out) (lex_from st' rest)
      | None => None
      end
  end.

Definition lex (text : string) : option (list token) := lex_from Between text.

(** The lexer over a piece of text that is not the end of the input:
    the state reached and the tokens completed on the way. *)
Fixpoint scan (st : lexer_state) (text : string) : option (lexer_state * list token) :=
  match text with
  | EmptyString => Some (st, [])
  | String c rest =>
      match step st c with
      | Some (st', out) =>
          match scan st' rest with
          | Some (st'', out') => Some (st'', out ++ out')
          | None => None
          end
      | None => None
      end
  end.

(** RDF terms and triples of the statement set. *)
Inductive term : Type :=
| Iri (iri : string)
| Lit (lexical : string).

Record triple : Type := { subject : term; predicate : term; object : term }.

Definition term_eqb (a b : term) : bool :=
  match a, b with
  | Iri x, Iri y => String.eqb x y
  | Lit x, Lit y => String.eqb x y
  | _, _ => false
  end.

Definition triple_eqb (a b : triple) : bool :=
  term_eqb (subject a) (subject b) && term_eqb (predicate a) (predicate b) &&
  term_eqb (object a) (object b).

Fixpoint namespace_of (env : list (string * string)) (prefix : string) : option string :=
  match env with
  | [] => None
  | (p, ns) :: env' => if String.eqb p prefix then Some ns else namespace_of env' prefix
  end.

Definition term_of (env : list (string * string)) (t : token) : option term :=
  match t with
  | IRIREF iri => Some (Iri iri)
  | PNAME p local => option_map (fun ns => Iri (ns ++ local)%string) (namespace_of env p)
  | STRING_LITERAL2 s => Some (Lit s)
  | _ => None
  end.

(** Modelled from the spec: the triples between the braces of INSERT
    DATA; the verb is an IRI. *)
Fixpoint triples_block (env : list (string * string)) (ts : list token) : option (list triple) :=
  match ts with
  | [RBRACE] => Some []
  | s :: p :: o :: DOT :: rest =>
      match term_of env s, term_of env p, term_of env o, triples_block env rest with
      | Some s', Some (Iri p'), Some o', Some more =>
          Some ({| subject := s'; predicate := Iri p'; object := o' |} :: more)
      | _, _, _, _ => None
      end
  | _ => None
  end.

(** Modelled from the spec: the prologue of prefix declarations
    followed by one INSERT DATA block. *)
Fixpoint update_unit (env : list (string * string)) (ts : list token) : option (list triple) :=
  match ts with
  | KEYWORD w :: PNAME p local :: IRIREF ns :: rest =>
      if String.eqb w "PREFIX" && String.eqb local ""
      then update_unit ((p, ns) :: env) rest
      else None
  | KEYWORD w1 :: KEYWORD w2 :: LBRACE :: rest =>
      if String.eqb w1 "INSERT" && String.eqb w2 "DATA"
      then triples_block env rest
      else None
  | _ => None
  end.

(** Modelled from the spec: the statement set the store reads from the
    text of an update (the store's parser is not part of the repository). *)
Definition parse_update (text : string) : option (list triple) :=
  match lex text with
  | Some ts => update_unit [] ts
  | None => None
  end.

(* ================================================================== *)
(** * Part III: the properties, stated                                 *)
(* ================================================================== *)

(** ** Escaping *)

(** The five substitutions, in the order they are to be applied. *)
Definition substitutions : list (ascii * string) :=
  [(backslash, "\\"); (dquote, String backslash dq);
   (newline, "\n"); (creturn, "\r"); (htab, "\t")].

(** One substitution: every occurrence of the character gives way to
    its replacement; all other characters stay. *)
Definition substitute (sub : ascii * string) (s : string) : string :=
  String.concat ""
    (map (fun a => if Ascii.eqb a (fst sub) then snd sub else String a "")
         (list_ascii_of_string s)).

(** Each substitution works on the output of the one before. *)
Definition substitute_in_order (subs : list (ascii * string)) (s : string) : string :=
  fold_left (fun acc sub => substitute sub acc) subs s.

(** The escape of one character, and of a string in a single pass. *)
Definition escape_char (a : ascii) : string :=
  if Ascii.eqb a backslash then "\\"
  else if Ascii.eqb a dquote then String backslash dq
  else if Ascii.eqb a newline then "\n"
  else if Ascii.eqb a creturn then "\r"
  else if Ascii.eqb a htab then "\t"
  else String a "".

Fixpoint escape_chars (s : string) : string :=
  match s with
  | EmptyString => EmptyString
  | String a rest => escape_char a ++ escape_chars rest
  end.

(** ** The statement set of an insertion *)

Definition SKOS : string := "http://www.w3.org/2004/02/skos/core#".

(** [t] asserts the SKOS property [property] of the subject [subj]. *)
Definition asserts (property subj : string) (t : triple) : bool :=
  term_eqb (subject t) (Iri subj) && term_eqb (predicate t) (Iri (SKOS ++ property)).

Definition count_assertions (property subj : string) (ts : list triple) : nat :=
  length (filter (asserts property subj) ts).

Definition narrower (broader child : string) : triple :=
  {| subject := Iri broader; predicate := Iri (SKOS ++ "narrower"); object := Iri child |}.

(** The concept a new term is to hang under: [parentId] when provided,
    else the root. *)
Definition hierarchy_parent (parentId : option string) : string :=
  if truthy parentId then interpolate parentId else BASE_URI ++ "Root".

(** The statement set read from [update] has exactly one label assertion
    for the new identifier, a note assertion exactly when the comment is
    non-empty, and the hierarchy assertion under the parent or the root. *)
Definition statement_set_as_claimed (now : Z) (body : Body.t) (update : string) : Prop :=
  exists ts,
    parse_update update = Some ts /\
    count_assertions "prefLabel" (termUri now) ts = 1 /\
    (0 < count_assertions "note" (termUri now) ts <-> truthy (Body.comment body) = true) /\
    In (narrower (hierarchy_parent (Body.parentId body)) (termUri now)) ts.

Definition insert_builds_statement_set (store : Store) (now : Z) (body : Body.t) : Prop :=
  exists update,
    sent (post_insert_term store now body)
      = [Post GRAPHDB_SPARQL_ENDPOINT update update_headers] /\
    statement_set_as_claimed now body update.

(** The statements of an insertion, with the label and the comment as
    the caller gave them. *)
Definition expected_statements (now : Z) (body : Body.t) : list triple :=
  [{| subject := Iri (termUri now);
      predicate := Iri (SKOS ++ "prefLabel");
      object := Lit (interpolate (Body.label body)) |}]
  ++ (if truthy (Body.comment body)
      then [{| subject := Iri (termUri now);
               predicate := Iri (SKOS ++ "note");
               object := Lit (interpolate (Body.comment body)) |}]
      else [])
  ++ [narrower (hierarchy_parent (Body.parentId body)) (termUri now)].

Fixpoint all_chars (f : ascii -> bool) (s : string) : bool :=
  match s with
  | EmptyString => true
  | String a rest => f a && all_chars f rest
  end.

(** ** The flattened graph *)

Definition has_source (row : ResultRow.t) : bool :=
  match ResultRow.source row with
  | Some _ => true
  | None => false
  end.

Definition node_entry_of (row : ResultRow.t) (entry : json) : Prop :=
  exists id,
    entry = JObj [("id", JStr id);
                  ("label", JStr (value_or_empty (ResultRow.label row)));
                  ("comment", JStr (value_or_empty (ResultRow.comment row)))] /\
    (forall n, ResultRow.node row = Some n -> id = value n).

Definition edge_entry_of (row : ResultRow.t) (entry : json) : Prop :=
  exists target,
    entry = JObj [("source", JStr (value_or_empty (ResultRow.source row)));
                  ("target", JStr target);
                  ("type", JStr (value_or_empty (ResultRow.relationshipType row)))] /\
    (forall n, ResultRow.node row = Some n -> target = value n).

(** The entries a row with a node binding contributes. *)
Definition node_entry (row : ResultRow.t) : json :=
  JObj [("id", JStr (value_or_empty (ResultRow.node row)));
        ("label", JStr (value_or_empty (ResultRow.label row)));
        ("comment", JStr (value_or_empty (ResultRow.comment row)))].

Definition edge_entries (row : ResultRow.t) : list json :=
  if has_source row then
    [JObj [("source", JStr (value_or_empty (ResultRow.source row)));
           ("target", JStr (value_or_empty (ResultRow.node row)));
           ("type", JStr (value_or_empty (ResultRow.relationshipType row)))]]
  else [].

(** One node entry per row, in row order; one edge entry per row whose
    source is populated, in row order. *)
Definition flattened_as_claimed (rows : list ResultRow.t) (r : reply) : Prop :=
  exists ns es,
    r = {| res_status := 200;
           res_json := JObj [("nodes", JArr ns); ("edges", JArr es)] |} /\
    Forall2 node_entry_of rows ns /\
    Forall2 edge_entry_of (filter has_source rows) es.

Definition graph_flattens (store : Store) (rows : list ResultRow.t) : Prop :=
  exists r, ended (get_graph store) = inr r /\ flattened_as_claimed rows r.

(** ** Replies to store responses *)

(** The store gave the response [r] to a call: axios resolved with it,
    or rejected with an error that carries it. *)
Definition store_responded (outcome : axios_error + response json)
    (r : response json) : Prop :=
  outcome = inr r \/
  exists e, outcome = inl e /\ err_response e = Some r.

Definition success_reply (now : Z) : reply :=
  {| res_status := 200;
     res_json := JObj [("message", JStr "Term inserted successfully!");
                       ("termId", JStr (termId now))] |}.

Definition warning_reply (r : response json) : reply :=
  {| res_status := status r;
     res_json :=
       JObj [("message",
              JStr "Term might have been inserted, but received unexpected status.");
             ("graphDbStatus", JNum (status r))] |}.

(** Every response of the store with a status other than 204 is passed
    on with its status and the warning message. *)
Definition passes_on_with_warning (store : Store) (now : Z) (body : Body.t) : Prop :=
  forall r,
    store_responded
      (axios_post store GRAPHDB_SPARQL_ENDPOINT (update_text now body) update_headers) r ->
    status r <> 204%Z ->
    ended (post_insert_term store now body) = inr (warning_reply r).

Definition post_outcome (store : Store) (now : Z) (body : Body.t)
  : axios_error + response json :=
  axios_post store GRAPHDB_SPARQL_ENDPOINT (update_text now body) update_headers.

(** ** The text around the parent identifier *)

Definition update_before_parent (now : Z) (label comment : option string) : string :=
  nl ++
  "     PREFIX skos: <http://www.w3.org/2004/02/skos/core#>" ++ nl ++
  "     INSERT DATA {" ++ nl ++
  "         <" ++ termUri now ++ "> skos:prefLabel " ++ dq
    ++ interpolate (escapeSparqlString label) ++ dq ++ " ." ++ nl ++
  "         " ++
  (if truthy comment
   then "<" ++ termUri now ++ "> skos:note " ++ dq
          ++ interpolate (escapeSparqlString comment) ++ dq ++ " ."
   else "") ++ nl ++
  "         ".

Definition update_after_parent (now : Z) : string :=
  " skos:narrower <" ++ termUri now ++ "> ." ++ nl ++
  "     }" ++ nl ++
  "    ".

(* ================================================================== *)
(** * Concrete stores, requests and results                            *)
(* ================================================================== *)

(** A store that answers every call the same way. *)
Definition store_with (post : axios_error + response json)
    (get : axios_error + response (list ResultRow.t)) : Store :=
  {| axios_post := fun _ _ _ => post; axios_get := fun _ _ _ => get |}.

Definition no_content : response json := {| status := 204; data := JStr "" |}.

Definition accepting_store : Store :=
  store_with (inr no_content) (inr {| status := 200; data := [] |}).

Definition connection_refused : axios_error :=
  {| err_response := None; err_message := "connect ECONNREFUSED 127.0.0.1:7200" |}.

Definition unreachable_store : Store :=
  store_with (inl connection_refused) (inl connection_refused).

Definition fruit : Body.t :=
  {| Body.label := Some "Fruit"; Body.comment := None; Body.parentId := None |}.

Definition apple : Body.t :=
  {| Body.label := Some "Apple";
     Body.comment := Some "A fruit";
     Body.parentId := Some "http://example.org/Fruit" |}.

Definition unlabelled : Body.t :=
  {| Body.label := Some ""; Body.comment := Some "A fruit"; Body.parentId := None |}.

Definition bound (v : string) : option binding := Some {| value := v |}.

Definition row_fruit : ResultRow.t :=
  {| ResultRow.node := bound "http://conceptual-machines.org/Term_1";
     ResultRow.label := bound "Fruit";
     ResultRow.comment := None;
     ResultRow.source := bound "http://conceptual-machines.org/Root";
     ResultRow.relationshipType := bound "http://www.w3.org/2004/02/skos/core#narrower" |}.

Definition row_root : ResultRow.t :=
  {| ResultRow.node := bound "http://conceptual-machines.org/Root";
     ResultRow.label := None;
     ResultRow.comment := None;
     ResultRow.source := None;
     ResultRow.relationshipType := None |}.

Definition row_apple : ResultRow.t :=
  {| ResultRow.node := bound "http://conceptual-machines.org/Term_2";
     ResultRow.label := bound "Apple";
     ResultRow.comment := bound "A fruit";
     ResultRow.source := bound "http://conceptual-machines.org/Term_1";
     ResultRow.relationshipType := bound "http://www.w3.org/2004/02/skos/core#narrower" |}.

(** Three rows, the second without a source binding. *)
Definition three_rows : list ResultRow.t := [row_fruit; row_root; row_apple].

(** A row in which the node variable is unbound. *)
Definition row_without_node : ResultRow.t :=
  {| ResultRow.node := None;
     ResultRow.label := bound "Orphan";
     ResultRow.comment := None;
     ResultRow.source := None;
     ResultRow.relationshipType := None |}.

Definition store_returning (rows : list ResultRow.t) : Store :=
  store_with (inr no_content) (inr {| status := 200; data := rows |}).

(** The store answers an update with 200 and a body. *)
Definition ok_with_body : response json :=
  {| status := 200; data := JObj [("inserted", JBool true)] |}.

(** The store answers an update with 500 and an error text; axios
    rejects with an error that carries the response. *)
Definition server_error : response json :=
  {| status := 500; data := JStr "MALFORMED QUERY" |}.

Definition failing_store : Store :=
  store_with (inl {| err_response := Some server_error;
                     err_message := "Request failed with status code 500" |})
             (inl connection_refused).

(** A parent identifier that closes the angle bracket and goes on with
    statements of its own. *)
Definition injected_parentId : string :=
  "http://x/p> skos:narrower <http://x/q> . <http://conceptual-machines.org/Term_5> skos:prefLabel "
  ++ dq ++ "B" ++ dq ++ " . <http://x/r".

Definition injected : Body.t :=
  {| Body.label := Some "A"; Body.comment := None; Body.parentId := Some injected_parentId |}.

(** Two insertions handled within one millisecond. *)
Definition same_millisecond : list arrival :=
  [ {| at_store := accepting_store; at_clock := 1700000000000; with_body := fruit |};
    {| at_store := accepting_store; at_clock := 1700000000000; with_body := apple |} ].

(* ================================================================== *)
(** * Notions for the further properties                               *)
(* ================================================================== *)

(** The five characters [escapeSparqlString] replaces. *)
Definition is_special (a : ascii) : bool :=
  Ascii.eqb a backslash || Ascii.eqb a dquote || Ascii.eqb a newline ||
  Ascii.eqb a creturn || Ascii.eqb a htab.

(** Newline, carriage return and tab. *)
Definition is_layout (a : ascii) : bool :=
  Ascii.eqb a newline || Ascii.eqb a creturn || Ascii.eqb a htab.

Fixpoint count_chars (f : ascii -> bool) (s : string) : nat :=
  match s with
  | EmptyString => 0
  | String a rest => (if f a then 1 else 0) + count_chars f rest
  end.

(** [j.key] for a key of the object itself. *)
Fixpoint lookup_field (key : string) (fields : list (string * json)) : option json :=
  match fields with
  | [] => None
  | (k, v) :: rest => if String.eqb k key then Some v else lookup_field key rest
  end.

Definition field (key : string) (j : json) : option json :=
  match j with
  | JObj fields => lookup_field key fields
  | _ => None
  end.

(** The reply that carries a flattened graph. *)
Definition graph_payload (ns es : list json) : reply :=
  {| res_status := 200;
     res_json := JObj [("nodes", JArr ns); ("edges", JArr es)] |}.

(** The store answers the query with 204 and rows that were never meant
    to be read. *)
Definition store_without_content : Store :=
  store_with (inr no_content) (inr {| status := 204; data := [row_without_node] |}).

(** The store refuses the query with a 503 and an empty body. *)
Definition unavailable : response json := {| status := 503; data := JStr "" |}.

Definition unavailable_store : Store :=
  store_with (inl {| err_response := Some unavailable;
                     err_message := "Request failed with status code 503" |})
             (inl {| err_response := Some unavailable;
                     err_message := "Request failed with status code 503" |}).

(** The request carries a non-empty label. *)
Definition labelled (a : arrival) : bool := truthy (Body.label (with_body a)).

(** The update call a labelled request gives rise to. *)
Definition update_call (a : arrival) : store_call :=
  Post GRAPHDB_SPARQL_ENDPOINT (update_text (at_clock a) (with_body a)) update_headers.

(* ================================================================== *)
(** * Part IV: proofs                                                  *)
(* ================================================================== *)

(** ** Strings *)

Lemma append_nil_r (s : string) : (s ++ "")%string = s.
Proof. induction s as [|a s IH]; simpl; [reflexivity | now rewrite IH]. Qed.

Lemma append_assoc (a b c : string) : ((a ++ b) ++ c)%string = (a ++ (b ++ c))%string.
Proof. induction a as [|x a IH]; simpl; [reflexivity | now rewrite IH]. Qed.

Lemma snoc_append (acc : string) (a : ascii) (s : string) :
  (snoc acc a ++ s)%string = (acc ++ String a s)%string.
Proof. unfold snoc. now rewrite append_assoc. Qed.

Lemma replace_app (c : ascii) (r a b : string) :
  replace c r (a ++ b) = (replace c r a ++ replace c r b)%string.
Proof.
  induction a as [|x a IH]; simpl; [reflexivity|].
  destruct (Ascii.eqb x c); rewrite IH; [now rewrite append_assoc | reflexivity].
Qed.

Lemma replace_other (c : ascii) (r : string) (a : ascii) (s : string) :
  Ascii.eqb a c = false -> replace c r (String a s) = String a (replace c r s).
Proof. intros E. simpl. now rewrite E. Qed.

(** A substitution, as the specification words it, is what the global
    [replace] of the source computes. *)
Lemma substitute_replace (sub : ascii * string) (s : string) :
  substitute sub s = replace (fst sub) (snd sub) s.
Proof.
  unfold substitute. induction s as [|a s IH]; [reflexivity|].
  cbn [list_ascii_of_string map replace].
  destruct s as [|b s].
  - cbn. destruct (Ascii.eqb a (fst sub)); [now rewrite append_nil_r | reflexivity].
  - cbn [list_ascii_of_string map String.concat] in IH |- *.
    rewrite IH. cbn [append].
    destruct (Ascii.eqb a (fst sub)); reflexivity.
Qed.

(** The chain of five replacements escapes each character on its own:
    a backslash brought in by a later step is never escaped again,
    because the backslashes of the input were dealt with first. *)
Lemma replace_chain_single_pass (s : string) :
  replace htab "\t"
    (replace creturn "\r"
       (replace newline "\n"
          (replace dquote (String backslash dq)
             (replace backslash "\\" s)))) = escape_chars s.
Proof.
  induction s as [|a s IH]; [reflexivity|].
  cbn [escape_chars]. unfold escape_char.
  destruct (Ascii.eqb a backslash) eqn:E1.
  { apply Ascii.eqb_eq in E1. subst a. cbn. now rewrite IH. }
  rewrite (replace_other backslash _ a _ E1).
  destruct (Ascii.eqb a dquote) eqn:E2.
  { apply Ascii.eqb_eq in E2. subst a. cbn. now rewrite IH. }
  rewrite (replace_other dquote _ a _ E2).
  destruct (Ascii.eqb a newline) eqn:E3.
  { apply Ascii.eqb_eq in E3. subst a. cbn. now rewrite IH. }
  rewrite (replace_other newline _ a _ E3).
  destruct (Ascii.eqb a creturn) eqn:E4.
  { apply Ascii.eqb_eq in E4. subst a. cbn. now rewrite IH. }
  rewrite (replace_other creturn _ a _ E4).
  destruct (Ascii.eqb a htab) eqn:E5.
  { apply Ascii.eqb_eq in E5. subst a. cbn. now rewrite IH. }
  rewrite (replace_other htab _ a _ E5).
  cbn. now rewrite IH.
Qed.

Lemma escapeSparqlString_Some (s : string) :
  escapeSparqlString (Some s) = Some (escape_chars s).
Proof.
  destruct s as [|a s]; [reflexivity|].
  unfold escapeSparqlString. cbn [truthy negb option_map].
  now rewrite replace_chain_single_pass.
Qed.

Lemma truthy_escape (v : option string) :
  truthy (escapeSparqlString v) = truthy v.
Proof.
  destruct v as [[|a s]|]; try reflexivity.
  rewrite escapeSparqlString_Some. cbn [escape_chars]. unfold escape_char.
  repeat match goal with |- context [if ?b then _ else _] => destruct b end;
    reflexivity.
Qed.

(** C7: on a non-empty string, escapeSparqlString is the five
    substitutions backslash, double quote, newline, carriage return, tab,
    applied in that order, each to the output of the one before; an
    absent or empty input comes back unchanged. *)
Theorem escapeSparqlString_substitutes_in_order :
  (forall a s,
      escapeSparqlString (Some (String a s))
      = Some (substitute_in_order substitutions (String a s))) /\
  length substitutions = 5 /\
  map fst substitutions = [backslash; dquote; newline; creturn; htab] /\
  escapeSparqlString None = None /\
  escapeSparqlString (Some "") = Some "".
Proof.
  repeat split.
  intros a s. unfold substitute_in_order, substitutions. cbn [fold_left].
  now rewrite !substitute_replace.
Qed.

(** ** The lexer on the pieces of the template *)

Lemma option_map_ident {A} (o : option A) : option_map (fun m => m) o = o.
Proof. now destruct o. Qed.

Lemma lex_from_literal (s acc rest : string) :
  lex_from (InLit acc) (escape_chars s ++ rest) = lex_from (InLit (acc ++ s)) rest.
Proof.
  revert acc. induction s as [|a s IH]; intros acc.
  - cbn. now rewrite append_nil_r.
  - cbn [escape_chars]. rewrite append_assoc. unfold escape_char.
    destruct (Ascii.eqb a backslash) eqn:E1.
    { apply Ascii.eqb_eq in E1. subst a. cbn. now rewrite !option_map_ident, IH, snoc_append. }
    destruct (Ascii.eqb a dquote) eqn:E2.
    { apply Ascii.eqb_eq in E2. subst a. cbn. now rewrite !option_map_ident, IH, snoc_append. }
    destruct (Ascii.eqb a newline) eqn:E3.
    { apply Ascii.eqb_eq in E3. subst a. cbn. now rewrite !option_map_ident, IH, snoc_append. }
    destruct (Ascii.eqb a creturn) eqn:E4.
    { apply Ascii.eqb_eq in E4. subst a. cbn. now rewrite !option_map_ident, IH, snoc_append. }
    destruct (Ascii.eqb a htab) eqn:E5.
    { apply Ascii.eqb_eq in E5. subst a. cbn. now rewrite !option_map_ident, IH, snoc_append. }
    cbn [append lex_from step]. rewrite E2, E1, E3, E4. cbn [orb].
    rewrite IH, snoc_append. apply option_map_ident.
Qed.

Lemma lex_from_open_quote (text : string) :
  lex_from Between (String dquote text) = lex_from (InLit "") text.
Proof. cbn. apply option_map_ident. Qed.

(** C1: for every string, the escaped string between double quotes is
    read by the string-literal grammar as one literal whose value is
    the original string. *)
Theorem escape_round_trip (s : string) :
  lex (dq ++ interpolate (escapeSparqlString (Some s)) ++ dq)
  = Some [STRING_LITERAL2 s].
Proof.
  rewrite escapeSparqlString_Some. cbn [interpolate].
  unfold lex, dq. cbn [append].
  rewrite lex_from_open_quote, lex_from_literal. reflexivity.
Qed.

(** ** POST /insert-term: validation and replies *)

(** C2: when the label is absent or the empty string, the handler
    replies 400 with an error payload and makes no call to the store. *)
Theorem insert_rejects_missing_label (store : Store) (now : Z) (body : Body.t) :
  Body.label body = None \/ Body.label body = Some "" ->
  post_insert_term store now body
  = {| sent := [];
       ended := inr {| res_status := 400;
                       res_json := JObj [("error", JStr "Term label is required.")] |} |}.
Proof.
  intros [H | H]; unfold post_insert_term; rewrite H; reflexivity.
Qed.

Lemma insert_rejects_missing_label_witness :
  post_insert_term accepting_store 1700000000000 unlabelled
  = {| sent := [];
       ended := inr {| res_status := 400;
                       res_json := JObj [("error", JStr "Term label is required.")] |} |}.
Proof.
  apply (insert_rejects_missing_label accepting_store 1700000000000 unlabelled).
  right. reflexivity.
Defined.

Lemma insert_sends_update (store : Store) (now : Z) (body : Body.t) :
  truthy (Body.label body) = true ->
  post_insert_term store now body
  = {| sent := [Post GRAPHDB_SPARQL_ENDPOINT (update_text now body) update_headers];
       ended := inr (try_catch
                       (r <- await (post_outcome store now body) ;; ret (insert_reply now r))
                       (catch_reply "Failed to insert Term into GraphDB.")) |}.
Proof. intros H. unfold post_insert_term. rewrite H. reflexivity. Qed.

Lemma warning_is_not_success (now : Z) (r : response json) :
  warning_reply r <> success_reply now.
Proof. unfold warning_reply, success_reply. intros H. discriminate H. Qed.

Lemma error_is_not_success (now : Z) (generic : string) (e : exn) :
  catch_reply generic e <> success_reply now.
Proof. unfold catch_reply, success_reply. intros H. discriminate H. Qed.

(** C5, as the code has it: every response of the store with a status
    other than 204 comes back to the caller with that same status and
    never as the success reply; the payload is the warning message when
    axios resolved with the response, and the store's own body under
    [error] (the generic failure message when that body is empty) when
    axios rejected with it. *)
Theorem insert_passes_status_on (store : Store) (now : Z) (body : Body.t)
    (r : response json) :
  truthy (Body.label body) = true ->
  store_responded (post_outcome store now body) r ->
  status r <> 204%Z ->
  exists rep,
    ended (post_insert_term store now body) = inr rep /\
    res_status rep = status r /\
    rep <> success_reply now /\
    (post_outcome store now body = inr r -> rep = warning_reply r) /\
    (forall e, post_outcome store now body = inl e ->
       res_json rep
       = JObj [("error",
                if json_truthy (data r) then data r
                else JStr "Failed to insert Term into GraphDB.")]).
Proof.
  intros Hl Hr Hs. rewrite (insert_sends_update _ _ _ Hl). cbn [ended].
  destruct Hr as [Hr | [e [Hr He]]]; rewrite Hr; cbn [await bind try_catch ret throw].
  - unfold insert_reply. apply Z.eqb_neq in Hs. rewrite Hs.
    exists (warning_reply r). repeat split.
    + apply warning_is_not_success.
    + intros e H. discriminate H.
  - exists (catch_reply "Failed to insert Term into GraphDB." (AxiosError e)).
    repeat split.
    + unfold catch_reply. cbn [error_response]. rewrite He. reflexivity.
    + apply error_is_not_success.
    + intros H. discriminate H.
    + intros e' H. injection H as <-.
      unfold catch_reply. cbn [error_response]. rewrite He. reflexivity.
Qed.

Lemma insert_passes_status_on_witness :
  ended (post_insert_term (store_with (inr ok_with_body) (inl connection_refused))
           1700000000000 fruit)
  = inr (warning_reply ok_with_body).
Proof.
  destruct (insert_passes_status_on
              (store_with (inr ok_with_body) (inl connection_refused))
              1700000000000 fruit ok_with_body)
    as [rep [Hrep [_ [_ [Hwarn _]]]]].
  - reflexivity.
  - left. reflexivity.
  - discriminate.
  - rewrite Hrep, Hwarn; reflexivity.
Defined.

(** The property as the specification words it fails: a response with
    status 500 that axios hands over as a rejection comes back with the
    store's error text, not with the warning message. *)
Lemma insert_warning_counterexample :
  ~ passes_on_with_warning failing_store 1700000000000 fruit.
Proof.
  intros H. specialize (H server_error).
  assert (Hr : store_responded
                 (axios_post failing_store GRAPHDB_SPARQL_ENDPOINT
                    (update_text 1700000000000 fruit) update_headers) server_error).
  { right. eexists. split; reflexivity. }
  specialize (H Hr). cbn in H.
  assert (Hs : 500%Z <> 204%Z) by discriminate.
  specialize (H Hs). discriminate H.
Qed.

(** C6: when the call to the store fails without any response, both
    handlers end with a reply 500 that carries the generic failure
    message; no exception leaves the handler. *)
Theorem transport_failure_replies_500 (store : Store) (now : Z) (body : Body.t)
    (e : axios_error) :
  err_response e = None ->
  (truthy (Body.label body) = true ->
   post_outcome store now body = inl e ->
   ended (post_insert_term store now body)
   = inr {| res_status := 500;
            res_json := JObj [("error", JStr "Failed to insert Term into GraphDB.")] |}) /\
  (axios_get store repository_url query query_headers = inl e ->
   ended (get_graph store)
   = inr {| res_status := 500;
            res_json := JObj [("error", JStr "Failed to fetch data from GraphDB.")] |}).
Proof.
  intros He. split.
  - intros Hl Ho. rewrite (insert_sends_update _ _ _ Hl). cbn [ended].
    rewrite Ho. cbn. unfold catch_reply. cbn [error_response]. rewrite He. reflexivity.
  - intros Ho. unfold get_graph. cbn [ended]. rewrite Ho. cbn.
    unfold catch_reply. cbn [error_response]. rewrite He. reflexivity.
Qed.

Lemma transport_failure_replies_500_witness :
  ended (post_insert_term unreachable_store 1700000000000 apple)
  = inr {| res_status := 500;
           res_json := JObj [("error", JStr "Failed to insert Term into GraphDB.")] |} /\
  ended (get_graph unreachable_store)
  = inr {| res_status := 500;
           res_json := JObj [("error", JStr "Failed to fetch data from GraphDB.")] |}.
Proof.
  destruct (transport_failure_replies_500 unreachable_store 1700000000000 apple
              connection_refused eq_refl) as [Hpost Hget].
  split.
  - apply Hpost; reflexivity.
  - apply Hget; reflexivity.
Defined.

(** C9: a provided parent identifier goes into the update text as it
    is, between angle brackets: the text before it and the text after it
    do not depend on it, nothing in it is escaped, and the update is
    sent whatever characters it holds. *)
Theorem parentId_embedded_verbatim (store : Store) (now : Z)
    (label comment : option string) (p : string) :
  truthy label = true ->
  p <> "" ->
  sent (post_insert_term store now
          {| Body.label := label; Body.comment := comment; Body.parentId := Some p |})
  = [Post GRAPHDB_SPARQL_ENDPOINT
       (update_before_parent now label comment
        ++ "<" ++ p ++ ">" ++ update_after_parent now)
       update_headers].
Proof.
  intros Hl Hp.
  rewrite insert_sends_update by exact Hl. cbn [sent]. do 2 f_equal.
  unfold update_text, sparqlUpdate, update_before_parent, update_after_parent.
  cbn [Body.label Body.comment Body.parentId].
  rewrite truthy_escape.
  destruct p as [|a p]; [congruence|]. cbn [truthy interpolate].
  repeat (rewrite ?append_assoc; cbn [append]; f_equal).
Qed.

Lemma parentId_embedded_verbatim_witness :
  sent (post_insert_term accepting_store 5
          {| Body.label := Some "A"; Body.comment := None;
             Body.parentId := Some "a> <b c" |})
  = [Post GRAPHDB_SPARQL_ENDPOINT
       (update_before_parent 5 (Some "A") None
        ++ "<" ++ "a> <b c" ++ ">" ++ update_after_parent 5)
       update_headers].
Proof.
  apply (parentId_embedded_verbatim accepting_store 5 (Some "A") None "a> <b c").
  - reflexivity.
  - discriminate.
Defined.

(** ** GET /graph: flattening *)

Lemma forEach_body_with_node (acc : processedData) (row : ResultRow.t) (n : binding) :
  ResultRow.node row = Some n ->
  forEach_body acc row
  = inr {| nodes := nodes acc ++ [node_entry row];
           edges := edges acc ++ edge_entries row |}.
Proof.
  intros Hn. unfold forEach_body, node_entry, edge_entries, has_source, push.
  rewrite Hn. cbn [read_value bind ret value_or_empty].
  destruct (ResultRow.source row) as [src|]; cbn [read_value bind ret value_or_empty nodes edges].
  - reflexivity.
  - now rewrite app_nil_r.
Qed.

Lemma forEach_body_without_node (acc : processedData) (row : ResultRow.t) :
  ResultRow.node row = None ->
  forEach_body acc row
  = inl (TypeError "Cannot read properties of undefined (reading 'value')").
Proof. intros Hn. unfold forEach_body. rewrite Hn. reflexivity. Qed.

Lemma forEach_all_nodes (rows : list ResultRow.t) (acc : processedData) :
  Forall (fun row => ResultRow.node row <> None) rows ->
  forEach rows acc
  = inr {| nodes := nodes acc ++ map node_entry rows;
           edges := edges acc ++ flat_map edge_entries rows |}.
Proof.
  intros H. revert acc. induction H as [|row rows Hrow _ IH]; intros acc.
  - cbn. rewrite !app_nil_r. now destruct acc.
  - destruct (ResultRow.node row) as [n|] eqn:Hn; [|congruence].
    cbn [forEach]. rewrite (forEach_body_with_node acc row n Hn).
    cbn [bind]. rewrite IH. cbn [nodes edges map flat_map].
    now rewrite <- !app_assoc.
Qed.

Lemma forEach_missing_node (rows : list ResultRow.t) (acc : processedData) :
  Exists (fun row => ResultRow.node row = None) rows ->
  forEach rows acc
  = inl (TypeError "Cannot read properties of undefined (reading 'value')").
Proof.
  intros H. revert acc. induction rows as [|row rows IH]; intros acc.
  - inversion H.
  - cbn [forEach]. destruct (ResultRow.node row) as [n|] eqn:Hn.
    + rewrite (forEach_body_with_node acc row n Hn). cbn [bind].
      apply IH. inversion H as [? ? H0|? ? H0]; subst; [congruence | exact H0].
    + now rewrite (forEach_body_without_node acc row Hn).
Qed.

Lemma node_entries_as_claimed (rows : list ResultRow.t) :
  Forall2 node_entry_of rows (map node_entry rows).
Proof.
  induction rows as [|row rows IH]; constructor; [|exact IH].
  exists (value_or_empty (ResultRow.node row)). split; [reflexivity|].
  intros n Hn. now rewrite Hn.
Qed.

Lemma edge_entries_as_claimed (rows : list ResultRow.t) :
  Forall2 edge_entry_of (filter has_source rows) (flat_map edge_entries rows).
Proof.
  induction rows as [|row rows IH]; [constructor|].
  cbn [filter flat_map]. unfold edge_entries at 1.
  destruct (has_source row); cbn [app]; [|exact IH].
  constructor; [|exact IH].
  exists (value_or_empty (ResultRow.node row)). split; [reflexivity|].
  intros n Hn. now rewrite Hn.
Qed.

(** C4, as the code has it: when the store answers 200 with rows that
    all carry a node binding, the reply is 200 with one node entry per
    row in row order (repeated identifiers are kept; label and comment
    are the empty string when unbound) and one edge entry for each row
    whose source is bound, and for no other row. *)
Theorem graph_flattens_rows_with_nodes (store : Store)
    (r : response (list ResultRow.t)) :
  axios_get store repository_url query query_headers = inr r ->
  status r = 200%Z ->
  Forall (fun row => ResultRow.node row <> None) (data r) ->
  ended (get_graph store)
  = inr {| res_status := 200;
           res_json := JObj [("nodes", JArr (map node_entry (data r)));
                             ("edges", JArr (flat_map edge_entries (data r)))] |} /\
  graph_flattens store (data r) /\
  length (map node_entry (data r)) = length (data r) /\
  length (flat_map edge_entries (data r)) = length (filter has_source (data r)).
Proof.
  intros Hget Hs Hnodes.
  assert (Hend : ended (get_graph store)
                 = inr {| res_status := 200;
                          res_json := JObj [("nodes", JArr (map node_entry (data r)));
                                            ("edges", JArr (flat_map edge_entries (data r)))] |}).
  { unfold get_graph. cbn [ended]. rewrite Hget. cbn [await bind ret].
    unfold graph_reply. rewrite Hs. cbn [Z.eqb Pos.eqb].
    rewrite (forEach_all_nodes _ _ Hnodes). reflexivity. }
  split; [exact Hend|]. split; [|split].
  - eexists. split; [exact Hend|].
    exists (map node_entry (data r)), (flat_map edge_entries (data r)).
    split; [reflexivity|]. split.
    + apply node_entries_as_claimed.
    + apply edge_entries_as_claimed.
  - apply length_map.
  - symmetry. eapply Forall2_length. apply edge_entries_as_claimed.
Qed.

Lemma graph_flattens_rows_with_nodes_witness :
  graph_flattens (store_returning three_rows) three_rows /\
  length (map node_entry three_rows) = 3 /\
  length (flat_map edge_entries three_rows) = 2.
Proof.
  destruct (graph_flattens_rows_with_nodes (store_returning three_rows)
              {| status := 200; data := three_rows |})
    as [_ [Hflat [Hn He]]].
  - reflexivity.
  - reflexivity.
  - repeat constructor; discriminate.
  - split; [exact Hflat|]. split; [exact Hn | exact He].
Defined.

(** The property as the specification words it fails: a result whose
    only row has no node binding is not flattened into one node entry;
    the handler replies 500. *)
Lemma graph_flattening_counterexample :
  ~ graph_flattens (store_returning [row_without_node]) [row_without_node].
Proof.
  intros [r [Hend [ns [es [Hr _]]]]]. subst r. discriminate Hend.
Qed.

(** C10: when a row of the result has no node binding, reading its
    value throws inside the loop, the handler's catch takes the
    exception, and the reply is 500 with the generic failure message:
    no node or edge gathered from the other rows is returned. *)
Theorem graph_row_without_node_replies_500 (store : Store)
    (r : response (list ResultRow.t)) :
  axios_get store repository_url query query_headers = inr r ->
  status r = 200%Z ->
  Exists (fun row => ResultRow.node row = None) (data r) ->
  forEach (data r) {| nodes := []; edges := [] |}
  = inl (TypeError "Cannot read properties of undefined (reading 'value')") /\
  ended (get_graph store)
  = inr {| res_status := 500;
           res_json := JObj [("error", JStr "Failed to fetch data from GraphDB.")] |}.
Proof.
  intros Hget Hs Hex. split; [now apply forEach_missing_node|].
  unfold get_graph. cbn [ended]. rewrite Hget. cbn [await bind ret].
  unfold graph_reply. rewrite Hs. cbn [Z.eqb Pos.eqb].
  rewrite (forEach_missing_node _ _ Hex). reflexivity.
Qed.

Lemma graph_row_without_node_replies_500_witness :
  ended (get_graph (store_returning [row_fruit; row_without_node; row_apple]))
  = inr {| res_status := 500;
           res_json := JObj [("error", JStr "Failed to fetch data from GraphDB.")] |}.
Proof.
  apply (graph_row_without_node_replies_500
           (store_returning [row_fruit; row_without_node; row_apple])
           {| status := 200; data := [row_fruit; row_without_node; row_apple] |}).
  - reflexivity.
  - reflexivity.
  - apply Exists_cons_tl. apply Exists_cons_hd. reflexivity.
Defined.

(** ** POST /insert-term: the statement set *)

Lemma all_chars_app (f : ascii -> bool) (a b : string) :
  all_chars f (a ++ b) = all_chars f a && all_chars f b.
Proof.
  induction a as [|x a IH]; cbn; [reflexivity|]. now rewrite IH, andb_assoc.
Qed.

Lemma iri_char_not_close (a : ascii) :
  iri_char a = true -> Ascii.eqb a ">" = false.
Proof.
  intros H. destruct (Ascii.eqb a ">") eqn:E; [|reflexivity].
  apply Ascii.eqb_eq in E. subst a. discriminate H.
Qed.

Lemma lex_from_iri (x acc rest : string) :
  all_chars iri_char x = true ->
  lex_from (InIri acc) (x ++ rest) = lex_from (InIri (acc ++ x)) rest.
Proof.
  revert acc. induction x as [|a x IH]; intros acc H.
  - cbn. now rewrite append_nil_r.
  - cbn [all_chars] in H. apply andb_prop in H. destruct H as [Ha Hx].
    cbn [append lex_from step]. rewrite (iri_char_not_close a Ha), Ha.
    rewrite (IH _ Hx), snoc_append. apply option_map_ident.
Qed.

Lemma digits_iri_safe (d : Decimal.uint) :
  all_chars iri_char (NilEmpty.string_of_uint d) = true.
Proof. induction d; cbn [NilEmpty.string_of_uint all_chars]; try rewrite IHd; reflexivity. Qed.

Lemma termUri_iri_safe (now : Z) : all_chars iri_char (termUri now) = true.
Proof.
  unfold termUri, termId. rewrite !all_chars_app.
  assert (H : forall d, all_chars iri_char (NilZero.string_of_uint d) = true).
  { intros d. pose proof (digits_iri_safe d) as Hd. destruct d; exact Hd || reflexivity. }
  destruct (Z.to_int now) as [d|d]; cbn [NilZero.string_of_int all_chars];
    rewrite H; reflexivity.
Qed.

Lemma lex_from_app (st : lexer_state) (a b : string) :
  lex_from st (a ++ b)
  = match scan st a with
    | Some (st', out) => option_map (app out) (lex_from st' b)
    | None => None
    end.
Proof.
  revert st. induction a as [|c a IH]; intros st.
  - cbn. symmetry. apply option_map_ident.
  - cbn [append lex_from scan]. destruct (step st c) as [[st' out]|]; [|reflexivity].
    rewrite IH. destruct (scan st' a) as [[st'' out']|]; [|reflexivity].
    destruct (lex_from st'' b) as [ts|]; [|reflexivity].
    cbn. now rewrite app_assoc.
Qed.

(** One piece of the text at a time: an identifier between angle
    brackets, an escaped string between quotes, or fixed text. *)
Ltac lex_piece :=
  match goal with
  | H : all_chars iri_char ?x = true
    |- context [lex_from (InIri ?acc) (?x ++ ?rest)%string] =>
      rewrite (lex_from_iri x acc rest H)
  | |- context [lex_from (InLit ?acc) (escape_chars ?s ++ ?rest)%string] =>
      rewrite (lex_from_literal s acc rest)
  | |- context [lex_from ?st (?a ++ ?rest)%string] =>
      rewrite (lex_from_app st a rest);
      let r := eval vm_compute in (scan st a) in
      change (scan st a) with r; cbv beta iota
  end.

Lemma truthy_escape_chars (s : string) :
  truthy (Some (escape_chars s)) = truthy (Some s).
Proof. rewrite <- escapeSparqlString_Some. apply truthy_escape. Qed.

Lemma parse_update_text (now : Z) (body : Body.t) :
  truthy (Body.label body) = true ->
  (forall p, Body.parentId body = Some p -> all_chars iri_char p = true) ->
  parse_update (update_text now body) = Some (expected_statements now body).
Proof.
  destruct body as [label comment parentId].
  cbn [Body.label Body.comment Body.parentId]. intros Hl Hp.
  unfold update_text, expected_statements, hierarchy_parent.
  cbn [Body.label Body.comment Body.parentId].
  pose proof (termUri_iri_safe now) as Hu. set (u := termUri now) in *. clearbody u.
  destruct label as [l|]; [|discriminate Hl].
  rewrite (escapeSparqlString_Some l). clear Hl.
  unfold parse_update, lex, sparqlUpdate, nl, dq.
  assert (Hc : comment = None \/ comment = Some ""%string \/
               exists c, comment = Some c /\ truthy (Some c) = true).
  { destruct comment as [[|b c]|];
      [ right; left; reflexivity
      | right; right; eexists; split; reflexivity
      | left; reflexivity ]. }
  assert (Hq : parentId = None \/ parentId = Some ""%string \/
               exists p, parentId = Some p /\ truthy (Some p) = true
                         /\ all_chars iri_char p = true).
  { destruct parentId as [[|b p]|];
      [ right; left; reflexivity
      | right; right; eexists; repeat split; apply Hp; reflexivity
      | left; reflexivity ]. }
  clear Hp.
  destruct Hc as [-> | [-> | [c [-> Tc]]]];
    [ | | rewrite (escapeSparqlString_Some c), truthy_escape_chars, Tc ];
    (destruct Hq as [-> | [-> | [p [-> [Tp Hp]]]]]; [ | | rewrite Tp ]);
    cbn [escapeSparqlString truthy negb interpolate];
    rewrite ?append_assoc;
    repeat lex_piece;
    reflexivity.
Qed.

Lemma asserts_same (property u : string) (o : term) :
  asserts property u
    {| subject := Iri u; predicate := Iri (SKOS ++ property); object := o |} = true.
Proof. unfold asserts. cbn [subject predicate term_eqb]. now rewrite !String.eqb_refl. Qed.

Lemma asserts_other (property u q : string) (s o : term) :
  String.eqb q (SKOS ++ property) = false ->
  asserts property u {| subject := s; predicate := Iri q; object := o |} = false.
Proof.
  intros H. unfold asserts. cbn [subject predicate term_eqb]. rewrite H.
  apply andb_false_r.
Qed.

Lemma expected_statements_as_claimed (now : Z) (body : Body.t) (update : string) :
  parse_update update = Some (expected_statements now body) ->
  statement_set_as_claimed now body update.
Proof.
  intros Hparse. exists (expected_statements now body).
  split; [exact Hparse|]. unfold expected_statements, count_assertions, narrower.
  destruct (truthy (Body.comment body)); cbn [app filter];
    rewrite ?asserts_same, ?(asserts_other "prefLabel"), ?(asserts_other "note")
      by reflexivity;
    cbn [length].
  - split; [reflexivity|]. split; [split; [reflexivity | lia]|].
    right. right. left. reflexivity.
  - split; [reflexivity|]. split; [split; [lia | discriminate]|].
    right. left. reflexivity.
Qed.

(** C3, as the code has it: for a request with a non-empty label
    whose parent identifier, when one is given, holds only characters
    that may stand between the angle brackets of an IRI, the update sent
    to the store reads as exactly these statements: the label assertion
    for the new identifier with the label as given, the note assertion
    with the comment as given when the comment is non-empty and none
    otherwise, and the hierarchy assertion under the parent when one is
    provided and under the root otherwise. *)
Theorem insert_statement_set (store : Store) (now : Z) (body : Body.t) :
  truthy (Body.label body) = true ->
  (forall p, Body.parentId body = Some p -> all_chars iri_char p = true) ->
  sent (post_insert_term store now body)
  = [Post GRAPHDB_SPARQL_ENDPOINT (update_text now body) update_headers] /\
  parse_update (update_text now body) = Some (expected_statements now body) /\
  insert_builds_statement_set store now body.
Proof.
  intros Hl Hp.
  assert (Hsent : sent (post_insert_term store now body)
                  = [Post GRAPHDB_SPARQL_ENDPOINT (update_text now body) update_headers]).
  { now rewrite (insert_sends_update _ _ _ Hl). }
  pose proof (parse_update_text now body Hl Hp) as Hparse.
  split; [exact Hsent|]. split; [exact Hparse|].
  exists (update_text now body). split; [exact Hsent|].
  now apply expected_statements_as_claimed.
Qed.

Lemma insert_statement_set_witness :
  parse_update (update_text 1700000000000 apple)
  = Some (expected_statements 1700000000000 apple) /\
  insert_builds_statement_set accepting_store 1700000000000 apple.
Proof.
  destruct (insert_statement_set accepting_store 1700000000000 apple)
    as [_ [Hparse Hclaim]].
  - reflexivity.
  - intros p H. injection H as <-. reflexivity.
  - split; [exact Hparse | exact Hclaim].
Defined.

(** The two requests of the specification, read back from the text. *)
Example fruit_statements :
  parse_update (update_text 1700000000000 fruit)
  = Some [ {| subject := Iri "http://conceptual-machines.org/Term_1700000000000";
              predicate := Iri "http://www.w3.org/2004/02/skos/core#prefLabel";
              object := Lit "Fruit" |};
           {| subject := Iri "http://conceptual-machines.org/Root";
              predicate := Iri "http://www.w3.org/2004/02/skos/core#narrower";
              object := Iri "http://conceptual-machines.org/Term_1700000000000" |} ].
Proof. vm_compute. reflexivity. Qed.

Example apple_statements :
  parse_update (update_text 1700000000000 apple)
  = Some [ {| subject := Iri "http://conceptual-machines.org/Term_1700000000000";
              predicate := Iri "http://www.w3.org/2004/02/skos/core#prefLabel";
              object := Lit "Apple" |};
           {| subject := Iri "http://conceptual-machines.org/Term_1700000000000";
              predicate := Iri "http://www.w3.org/2004/02/skos/core#note";
              object := Lit "A fruit" |};
           {| subject := Iri "http://example.org/Fruit";
              predicate := Iri "http://www.w3.org/2004/02/skos/core#narrower";
              object := Iri "http://conceptual-machines.org/Term_1700000000000" |} ].
Proof. vm_compute. reflexivity. Qed.

(** What the store reads when the parent identifier closes the angle
    bracket itself: four statements, two of them label assertions for
    the new identifier. *)
Lemma injected_statements :
  parse_update (update_text 5 injected)
  = Some [ {| subject := Iri "http://conceptual-machines.org/Term_5";
              predicate := Iri "http://www.w3.org/2004/02/skos/core#prefLabel";
              object := Lit "A" |};
           {| subject := Iri "http://x/p";
              predicate := Iri "http://www.w3.org/2004/02/skos/core#narrower";
              object := Iri "http://x/q" |};
           {| subject := Iri "http://conceptual-machines.org/Term_5";
              predicate := Iri "http://www.w3.org/2004/02/skos/core#prefLabel";
              object := Lit "B" |};
           {| subject := Iri "http://x/r";
              predicate := Iri "http://www.w3.org/2004/02/skos/core#narrower";
              object := Iri "http://conceptual-machines.org/Term_5" |} ].
Proof. vm_compute. reflexivity. Qed.

(** The property as the specification words it fails: with the
    injected parent identifier the statement set sent to the store holds
    two label assertions for the new identifier, not exactly one. *)
Lemma insert_statement_set_counterexample :
  ~ insert_builds_statement_set accepting_store 5 injected.
Proof.
  intros [update [Hsent [ts [Hparse [Hcount _]]]]].
  rewrite insert_sends_update in Hsent by reflexivity. cbn [sent] in Hsent.
  injection Hsent as <-.
  rewrite injected_statements in Hparse. injection Hparse as <-.
  vm_compute in Hcount. discriminate Hcount.
Qed.

(** ** Term identifiers *)

Lemma to_int_not_nil (z : Z) :
  Z.to_int z <> Decimal.Pos Decimal.Nil /\ Z.to_int z <> Decimal.Neg Decimal.Nil.
Proof.
  destruct z as [|p|p]; cbn [Z.to_int]; split; try discriminate;
    intros H; injection H as H; exact (DecimalPos.Unsigned.to_uint_nonnil p H).
Qed.

(** The identifier is the fixed prefix followed by the clock reading in
    decimal, so two different readings give two different identifiers. *)
Lemma termId_inj (a b : Z) : termId a = termId b -> a = b.
Proof.
  unfold termId. intros H. cbn [append] in H. injection H as H.
  apply (f_equal NilZero.int_of_string) in H.
  destruct (to_int_not_nil a) as [Ha1 Ha2]. destruct (to_int_not_nil b) as [Hb1 Hb2].
  rewrite !NilZero.isi in H by assumption. injection H as H.
  apply (f_equal Z.of_int) in H. now rewrite !DecimalZ.of_to in H.
Qed.

(** A successful insertion reports the identifier made from the clock
    reading alone: nothing of the request or of earlier requests enters. *)
Lemma insert_reports_termId (store : Store) (now : Z) (body : Body.t)
    (r : response json) :
  truthy (Body.label body) = true ->
  post_outcome store now body = inr r ->
  status r = 204%Z ->
  ended (post_insert_term store now body) = inr (success_reply now) /\
  reported_termId (post_insert_term store now body) = Some (termId now).
Proof.
  intros Hl Ho Hs.
  assert (H : ended (post_insert_term store now body) = inr (success_reply now)).
  { rewrite (insert_sends_update _ _ _ Hl). cbn [ended]. rewrite Ho.
    cbn [await bind ret try_catch]. unfold insert_reply. now rewrite Hs. }
  split; [exact H|]. unfold reported_termId. rewrite H. reflexivity.
Qed.

(** C8: the identifier is the prefix [Term_] followed by the clock
    reading, and the code does not keep identifiers apart: two requests
    served while the clock shows the same millisecond both succeed and
    are given the same identifier. *)
Theorem same_millisecond_same_termId :
  map reported_termId (serve same_millisecond)
  = [Some "Term_1700000000000"; Some "Term_1700000000000"] /\
  map ended (serve same_millisecond)
  = [inr (success_reply 1700000000000); inr (success_reply 1700000000000)].
Proof. split; vm_compute; reflexivity. Qed.

(* ================================================================== *)
(** * Part V: further properties of the code                           *)
(* ================================================================== *)

(** ** escapeSparqlString *)

Lemma escape_chars_inj (s t : string) : escape_chars s = escape_chars t -> s = t.
Proof.
  intros H.
  assert (L : forall x, lex_from (InLit "") (escape_chars x ++ dq)
                        = Some [STRING_LITERAL2 x]).
  { intros x. rewrite lex_from_literal. reflexivity. }
  pose proof (L s) as Hs. rewrite H, (L t) in Hs. now injection Hs.
Qed.

(** X1: escapeSparqlString never sends two different inputs to the same
    output, absent and empty inputs included. *)
Theorem escapeSparqlString_injective (a b : option string) :
  a <> b -> escapeSparqlString a <> escapeSparqlString b.
Proof.
  intros Hab H. apply Hab. clear Hab.
  destruct a as [s|], b as [t|]; rewrite ?escapeSparqlString_Some in H; cbn in H;
    try discriminate H; [|reflexivity].
  injection H as H. f_equal. now apply escape_chars_inj.
Qed.

Lemma escapeSparqlString_injective_witness :
  escapeSparqlString (Some "a\b") <> escapeSparqlString (Some "a\\b").
Proof.
  apply (escapeSparqlString_injective (Some "a\b") (Some "a\\b")). discriminate.
Defined.

Lemma escape_chars_no_layout (s : string) :
  all_chars (fun a => negb (is_layout a)) (escape_chars s) = true.
Proof.
  induction s as [|a s IH]; [reflexivity|].
  cbn [escape_chars]. rewrite all_chars_app, IH, andb_true_r.
  unfold escape_char.
  destruct (Ascii.eqb a backslash) eqn:E1; [reflexivity|].
  destruct (Ascii.eqb a dquote) eqn:E2; [reflexivity|].
  destruct (Ascii.eqb a newline) eqn:E3; [reflexivity|].
  destruct (Ascii.eqb a creturn) eqn:E4; [reflexivity|].
  destruct (Ascii.eqb a htab) eqn:E5; [reflexivity|].
  cbn [all_chars]. unfold is_layout. now rewrite E3, E4, E5.
Qed.

(** X2: whatever the input, the text escapeSparqlString hands to the
    template holds no newline, carriage return or tab: an escaped label
    or comment stays on one line. *)
Theorem escaped_text_has_no_layout (v : option string) :
  all_chars (fun a => negb (is_layout a)) (interpolate (escapeSparqlString v)) = true.
Proof.
  destruct v as [s|]; [|reflexivity].
  rewrite escapeSparqlString_Some. apply escape_chars_no_layout.
Qed.

Lemma length_append (a b : string) :
  String.length (a ++ b)%string = String.length a + String.length b.
Proof. induction a as [|x a IH]; cbn; [reflexivity | now rewrite IH]. Qed.

Lemma escape_chars_length (s : string) :
  String.length (escape_chars s) = String.length s + count_chars is_special s.
Proof.
  induction s as [|a s IH]; [reflexivity|].
  cbn [escape_chars count_chars String.length]. rewrite length_append, IH.
  unfold escape_char, is_special.
  destruct (Ascii.eqb a backslash); [cbn; lia|].
  destruct (Ascii.eqb a dquote); [cbn; lia|].
  destruct (Ascii.eqb a newline); [cbn; lia|].
  destruct (Ascii.eqb a creturn); [cbn; lia|].
  destruct (Ascii.eqb a htab); cbn; lia.
Qed.

Lemma count_chars_le (f : ascii -> bool) (s : string) :
  count_chars f s <= String.length s.
Proof. induction s as [|a s IH]; cbn; [lia | destruct (f a); lia]. Qed.

(** X3: the escaped string is longer than the input by exactly the
    number of backslashes, double quotes, newlines, carriage returns and
    tabs in it; so it is never shorter and at most twice as long. *)
Theorem escaped_length (s : string) :
  String.length (interpolate (escapeSparqlString (Some s)))
  = String.length s + count_chars is_special s /\
  String.length s <= String.length (interpolate (escapeSparqlString (Some s)))
                  <= 2 * String.length s.
Proof.
  rewrite escapeSparqlString_Some. cbn [interpolate].
  rewrite escape_chars_length. pose proof (count_chars_le is_special s). lia.
Qed.

Lemma escape_chars_plain (s : string) :
  count_chars is_special s = 0 -> escape_chars s = s.
Proof.
  induction s as [|a s IH]; [reflexivity|].
  cbn [count_chars escape_chars]. unfold escape_char, is_special.
  destruct (Ascii.eqb a backslash); [cbn; lia|].
  destruct (Ascii.eqb a dquote); [cbn; lia|].
  destruct (Ascii.eqb a newline); [cbn; lia|].
  destruct (Ascii.eqb a creturn); [cbn; lia|].
  destruct (Ascii.eqb a htab); [cbn; lia|].
  cbn. intros H. now rewrite IH.
Qed.

(** X4: escapeSparqlString gives a string back unchanged exactly when
    the string holds none of the five characters. *)
Theorem escape_unchanged_iff_plain (s : string) :
  escapeSparqlString (Some s) = Some s <-> count_chars is_special s = 0.
Proof.
  rewrite escapeSparqlString_Some. split.
  - intros H. injection H as H.
    pose proof (escape_chars_length s) as L. rewrite H in L. lia.
  - intros H. now rewrite escape_chars_plain.
Qed.

Lemma escape_chars_app (a b : string) :
  escape_chars (a ++ b)%string = (escape_chars a ++ escape_chars b)%string.
Proof.
  induction a as [|x a IH]; [reflexivity|].
  cbn [append escape_chars]. now rewrite IH, append_assoc.
Qed.

(** X5: escaping works piece by piece: the escape of a concatenation is
    the concatenation of the escapes, empty pieces included. *)
Theorem escape_concatenation (a b : string) :
  interpolate (escapeSparqlString (Some (a ++ b)%string))
  = (interpolate (escapeSparqlString (Some a))
     ++ interpolate (escapeSparqlString (Some b)))%string.
Proof. rewrite !escapeSparqlString_Some. cbn [interpolate]. apply escape_chars_app. Qed.

(** ** POST /insert-term *)

(** X6: the caller is told a term identifier exactly when the label is
    non-empty and the store resolved the update with status 204; the
    identifier is then the one made from the clock reading.  A reply
    with another 2xx status of the store, an error reply or the 400
    reply never carries one. *)
Theorem termId_reported_iff_acknowledged (store : Store) (now : Z)
    (body : Body.t) (id : string) :
  reported_termId (post_insert_term store now body) = Some id <->
  truthy (Body.label body) = true /\
  exists r, post_outcome store now body = inr r /\ status r = 204%Z /\ id = termId now.
Proof.
  split.
  - destruct (truthy (Body.label body)) eqn:Hl.
    + rewrite (insert_sends_update _ _ _ Hl). unfold reported_termId. cbn [ended].
      destruct (post_outcome store now body) as [e|r] eqn:Ho;
        cbn [await bind ret throw try_catch].
      * unfold catch_reply. cbn [res_json]. discriminate.
      * unfold insert_reply. destruct (status r =? 204)%Z eqn:Hs; cbn [res_json].
        -- intros H. injection H as <-. split; [reflexivity|].
           exists r. apply Z.eqb_eq in Hs. auto.
        -- cbn. discriminate.
    + unfold post_insert_term. rewrite Hl. cbn. discriminate.
  - intros [Hl [r [Ho [Hs ->]]]].
    now destruct (insert_reports_termId store now body r Hl Ho Hs).
Qed.

(** X7: two insertions the store acknowledges are given the same
    identifier exactly when the clock showed the same millisecond for
    both; labels, comments and parents play no part. *)
Theorem acknowledged_ids_equal_iff_same_clock (a b : arrival)
    (ra rb : response json) :
  truthy (Body.label (with_body a)) = true ->
  truthy (Body.label (with_body b)) = true ->
  post_outcome (at_store a) (at_clock a) (with_body a) = inr ra -> status ra = 204%Z ->
  post_outcome (at_store b) (at_clock b) (with_body b) = inr rb -> status rb = 204%Z ->
  (reported_termId (post_insert_term (at_store a) (at_clock a) (with_body a))
   = reported_termId (post_insert_term (at_store b) (at_clock b) (with_body b))
   <-> at_clock a = at_clock b).
Proof.
  intros La Lb Oa Sa Ob Sb.
  destruct (insert_reports_termId _ _ _ _ La Oa Sa) as [_ ->].
  destruct (insert_reports_termId _ _ _ _ Lb Ob Sb) as [_ ->].
  split.
  - intros H. apply termId_inj. congruence.
  - intros ->. reflexivity.
Qed.

Lemma acknowledged_ids_equal_iff_same_clock_witness :
  reported_termId (post_insert_term accepting_store 1700000000000 fruit)
  = reported_termId (post_insert_term accepting_store 1700000000000 apple)
  <-> 1700000000000%Z = 1700000000000%Z.
Proof.
  apply (acknowledged_ids_equal_iff_same_clock
           {| at_store := accepting_store; at_clock := 1700000000000; with_body := fruit |}
           {| at_store := accepting_store; at_clock := 1700000000000; with_body := apple |}
           no_content no_content); reflexivity.
Defined.

(** ** GET /graph *)

(** X8: when the store resolves the query with a status other than
    200, the reply has that status, the warning message and the status
    again under [graphDbStatus]; the rows are not read, so rows without
    a node binding do no harm here. *)
Theorem graph_passes_other_status_on (store : Store) (r : response (list ResultRow.t)) :
  axios_get store repository_url query query_headers = inr r ->
  status r <> 200%Z ->
  ended (get_graph store)
  = inr {| res_status := status r;
           res_json :=
             JObj [("message",
                    JStr "Data might have been fetched, but received unexpected status.");
                   ("graphDbStatus", JNum (status r))] |}.
Proof.
  intros Hget Hs. unfold get_graph. cbn [ended]. rewrite Hget.
  cbn [await bind ret]. unfold graph_reply.
  apply Z.eqb_neq in Hs. rewrite Hs. reflexivity.
Qed.

Lemma graph_passes_other_status_on_witness :
  ended (get_graph store_without_content)
  = inr {| res_status := 204;
           res_json :=
             JObj [("message",
                    JStr "Data might have been fetched, but received unexpected status.");
                   ("graphDbStatus", JNum 204)] |}.
Proof.
  apply (graph_passes_other_status_on store_without_content
           {| status := 204; data := [row_without_node] |}).
  - reflexivity.
  - discriminate.
Defined.

(** X9: when the query is rejected with an error that carries a
    response of the store, the reply has the status of that response,
    whatever it is, and under [error] the body of the response, or the
    generic failure message when the body is falsy (empty text, null,
    zero, false). *)
Theorem graph_passes_error_response_on (store : Store) (e : axios_error)
    (r : response json) :
  axios_get store repository_url query query_headers = inl e ->
  err_response e = Some r ->
  ended (get_graph store)
  = inr {| res_status := status r;
           res_json :=
             JObj [("error",
                    if json_truthy (data r) then data r
                    else JStr "Failed to fetch data from GraphDB.")] |}.
Proof.
  intros Hget He. unfold get_graph. cbn [ended]. rewrite Hget.
  cbn [await bind throw try_catch]. unfold catch_reply. cbn [error_response].
  rewrite He. reflexivity.
Qed.

Lemma graph_passes_error_response_on_witness :
  ended (get_graph unavailable_store)
  = inr {| res_status := 503;
           res_json := JObj [("error", JStr "Failed to fetch data from GraphDB.")] |}.
Proof.
  apply (graph_passes_error_response_on unavailable_store
           {| err_response := Some unavailable;
              err_message := "Request failed with status code 503" |}
           unavailable); reflexivity.
Defined.

Lemma forEach_succeeds_only_with_nodes (rows : list ResultRow.t)
    (acc out : processedData) :
  forEach rows acc = inr out ->
  Forall (fun row => ResultRow.node row <> None) rows.
Proof.
  revert acc. induction rows as [|row rows IH]; intros acc H; [constructor|].
  cbn [forEach] in H. destruct (ResultRow.node row) as [n|] eqn:Hn.
  - rewrite (forEach_body_with_node acc row n Hn) in H. cbn [bind] in H.
    constructor; [congruence | exact (IH _ H)].
  - rewrite (forEach_body_without_node acc row Hn) in H. discriminate H.
Qed.

(** A reply that carries a graph can only come from a 200 answer of
    the store whose rows all have their node binding. *)
Lemma graph_payload_inv (store : Store) (ns es : list json) :
  ended (get_graph store) = inr (graph_payload ns es) ->
  exists r,
    axios_get store repository_url query query_headers = inr r /\
    status r = 200%Z /\
    Forall (fun row => ResultRow.node row <> None) (data r) /\
    ns = map node_entry (data r) /\
    es = flat_map edge_entries (data r).
Proof.
  unfold get_graph, graph_payload. cbn [ended].
  destruct (axios_get store repository_url query query_headers) as [e|r] eqn:Hget;
    cbn [await bind ret throw try_catch].
  - unfold catch_reply. intros H. inversion H.
  - unfold graph_reply. destruct (Z.eq_dec (status r) 200) as [Hs|Hs].
    + rewrite Hs. cbn [Z.eqb Pos.eqb].
      destruct (forEach (data r) {| nodes := []; edges := [] |}) as [x|out] eqn:Hf;
        cbn [bind ret try_catch].
      * unfold catch_reply. intros H. inversion H.
      * pose proof (forEach_succeeds_only_with_nodes _ _ _ Hf) as Hall.
        rewrite (forEach_all_nodes _ _ Hall) in Hf. injection Hf as <-.
        cbn [nodes edges app]. intros H. injection H as <- <-.
        exists r. auto.
    + apply Z.eqb_neq in Hs. rewrite Hs.
      cbn [bind ret try_catch]. intros H. inversion H.
Qed.

(** X10: a graph is returned only when the store answered 200 and every
    row has its node binding; the node and edge lists are then the rows'
    entries in row order.  No other answer of the store, and no error,
    ends in a reply of that shape. *)
Theorem graph_returned_only_from_complete_rows (store : Store) (ns es : list json) :
  ended (get_graph store) = inr (graph_payload ns es) <->
  exists r,
    axios_get store repository_url query query_headers = inr r /\
    status r = 200%Z /\
    Forall (fun row => ResultRow.node row <> None) (data r) /\
    ns = map node_entry (data r) /\
    es = flat_map edge_entries (data r).
Proof.
  split; [apply graph_payload_inv|].
  intros [r [Hget [Hs [Hall [-> ->]]]]].
  unfold get_graph, graph_payload. cbn [ended]. rewrite Hget. cbn [await bind ret].
  unfold graph_reply. rewrite Hs. cbn [Z.eqb Pos.eqb].
  rewrite (forEach_all_nodes _ _ Hall). reflexivity.
Qed.

Lemma edge_targets_in_rows (rows : list ResultRow.t) (e : json) :
  In e (flat_map edge_entries rows) ->
  exists n, In n (map node_entry rows) /\
            field "target" e = field "id" n /\ field "target" e <> None.
Proof.
  intros H. apply in_flat_map in H. destruct H as [row [Hrow He]].
  exists (node_entry row). split; [now apply in_map|].
  unfold edge_entries in He. destruct (has_source row); [|destruct He].
  destruct He as [<- | []]. split; [reflexivity | discriminate].
Qed.

Lemma edge_entries_count (rows : list ResultRow.t) :
  length (flat_map edge_entries rows) <= length rows.
Proof.
  induction rows as [|row rows IH]; [reflexivity|].
  cbn [flat_map]. rewrite length_app. unfold edge_entries at 1.
  destruct (has_source row); cbn [length]; lia.
Qed.

(** X11: in every graph the handler returns, whatever the store sent,
    each edge's target is the id of a node of the same reply, and there
    are never more edges than nodes.  (The source of an edge need not be
    among the nodes.) *)
Theorem graph_edges_point_at_nodes (store : Store) (ns es : list json) :
  ended (get_graph store) = inr (graph_payload ns es) ->
  length es <= length ns /\
  forall e, In e es ->
    exists n, In n ns /\ field "target" e = field "id" n /\ field "target" e <> None.
Proof.
  intros H. apply graph_payload_inv in H.
  destruct H as [r [_ [_ [_ [-> ->]]]]]. split.
  - rewrite length_map. apply edge_entries_count.
  - intros e. apply edge_targets_in_rows.
Qed.

Lemma graph_edges_point_at_nodes_witness :
  length (flat_map edge_entries three_rows) <= length (map node_entry three_rows) /\
  forall e, In e (flat_map edge_entries three_rows) ->
    exists n, In n (map node_entry three_rows) /\
              field "target" e = field "id" n /\ field "target" e <> None.
Proof.
  apply (graph_edges_point_at_nodes (store_returning three_rows)).
  reflexivity.
Defined.

(** ** The process *)

(** X12: over any sequence of insertion requests, the calls that reach
    the store are exactly the updates of the requests with a non-empty
    label, one each and in the order of arrival; a request without a
    label costs the store nothing, and no request is retried, whatever
    the store answers. *)
Theorem store_calls_of_process (requests : list arrival) :
  flat_map sent (serve requests) = map update_call (filter labelled requests) /\
  length (flat_map sent (serve requests)) <= length requests.
Proof.
  assert (H : flat_map sent (serve requests)
              = map update_call (filter labelled requests)).
  { induction requests as [|a l IH]; [reflexivity|].
    cbn [serve map flat_map filter]. fold (serve l). rewrite IH.
    destruct (labelled a) eqn:Hl; unfold labelled in Hl.
    - rewrite (insert_sends_update _ _ _ Hl). reflexivity.
    - unfold post_insert_term. rewrite Hl. reflexivity. }
  split; [exact H|]. rewrite H, length_map. apply filter_length_le.
Qed.
